(** * SSCA demo program ([src/main.c]): a shallow embedding and its properties

    The program is a flat set of [int] functions: three arithmetic
    primitives, two loop kernels, two helpers, a dispatcher, a mutually
    recursive pair and an entry point that prints three results.

    - A C [int] is a [Z] in the range [-2^31, 2^31); every arithmetic
      operator reduces its exact result back into that range (two's
      complement wrap-around), see [Int.wrap].
    - A function that loops or recurses is a fuel-indexed computation
      [comp A := nat -> option A]: [None] means that the fuel ran out before
      the function returned.  [returns c v] says that some fuel is enough,
      [diverges c] that none is. *)

From Stdlib Require Import ZArith Lia List Bool String Ascii DecimalString.
Import ListNotations.

Local Open Scope Z_scope.

(** ** The machine type [int] *)

Module Int.

Definition modulus : Z := 4294967296.
Definition min_signed : Z := -2147483648.
Definition max_signed : Z := 2147483647.

(** The values an [int] variable can hold. *)
Definition in_range (z : Z) : Prop := min_signed <= z <= max_signed.

(** Reduction of an exact result to the representable value congruent to
    it modulo [2^32]. *)
Definition wrap (z : Z) : Z := (z - min_signed) mod modulus + min_signed.

(** The C operators [+], [-] and [*] at type [int]. *)
Definition add (a b : Z) : Z := wrap (a + b).
Definition sub (a b : Z) : Z := wrap (a - b).
Definition mul (a b : Z) : Z := wrap (a * b).

End Int.

(** ** Computations that may not return *)

Definition comp (A : Type) : Type := nat -> option A.

Definition ret {A : Type} (a : A) : comp A := fun _ => Some a.

Definition bind {A B : Type} (c : comp A) (k : A -> comp B) : comp B :=
  fun fuel => match c fuel with
              | Some a => k a fuel
              | None => None
              end.

Notation "x <- c ;; k" := (bind c (fun x => k))
  (at level 61, c at next level, right associativity).

Definition returns {A : Type} (c : comp A) (v : A) : Prop :=
  exists fuel : nat, c fuel = Some v.

Definition diverges {A : Type} (c : comp A) : Prop :=
  forall fuel : nat, c fuel = None.

(** More fuel never changes a result already obtained. *)
Definition monotone {A : Type} (c : comp A) : Prop :=
  forall (f f' : nat) (v : A), c f = Some v -> (f <= f')%nat -> c f' = Some v.

(** [for (i = i0; cond(i); i = step(i)) acc = body(i, acc);] followed by
    [return acc;].  One unit of fuel pays for one evaluation of the loop
    condition. *)
Fixpoint for_loop {A : Type} (cond : Z -> bool) (step : Z -> Z)
    (body : Z -> A -> A) (i : Z) (acc : A) (fuel : nat) : option A :=
  match fuel with
  | O => None
  | S fuel' =>
      if cond i
      then for_loop cond step body (step i) (body i acc) fuel'
      else Some acc
  end.

(** ** The program *)

(** Utility functions. *)
Definition add (a b : Z) : Z := Int.add a b.

Definition multiply (a b : Z) : Z := Int.mul a b.

Definition square (x : Z) : Z := multiply x x.

(** Computational kernels. *)
Definition compute_series (n : Z) : comp Z :=
  for_loop (fun i => i <? n) (fun i => Int.add i 1)
           (fun i sum => add sum (square i)) 0 0.

Definition compute_product (n : Z) : comp Z :=
  for_loop (fun i => i <=? n) (fun i => Int.add i 1)
           (fun i prod => multiply prod i) 1 1.

(** Helper functions. *)
Definition helper_A (x : Z) : Z := add x 10.

Definition helper_B (x : Z) : Z := Int.add (helper_A x) (square x).

(** Dispatcher. *)
Definition process (mode value : Z) : comp Z :=
  if mode =? 0 then compute_series value
  else if mode =? 1 then compute_product value
  else ret (helper_B value).

(** Cyclic calls.  One unit of fuel pays for one call. *)
Fixpoint cycle_1 (x : Z) (fuel : nat) {struct fuel} : option Z :=
  match fuel with
  | O => None
  | S fuel' => if x <=? 0 then Some x else cycle_2 (Int.sub x 1) fuel'
  end
with cycle_2 (x : Z) (fuel : nat) {struct fuel} : option Z :=
  match fuel with
  | O => None
  | S fuel' => cycle_1 (Int.sub x 1) fuel'
  end.

(** Dead code. *)
Definition unused_function (x : Z) : Z := Int.mul x 42.

(** The [%d] conversion of [printf]: signed decimal, no padding. *)
Definition fmt_d (z : Z) : string := NilZero.string_of_int (Z.to_int z).

Definition newline : string := String (ascii_of_nat 10) EmptyString.

(** [printf("%d %d %d\n", a, b, c)]: the text written to standard output. *)
Definition printf_3d (a b c : Z) : string :=
  (fmt_d a ++ " " ++ fmt_d b ++ " " ++ fmt_d c ++ newline)%string.

(** What a run of the program leaves behind. *)
Record outcome : Type := { stdout : string; exit_status : Z }.

(** Entry point. *)
Definition main : comp outcome :=
  result1 <- process 0 1000 ;;
  result2 <- process 1 10 ;;
  result3 <- process 2 5 ;;
  _ <- cycle_1 5 ;;
  ret {| stdout := printf_3d result1 result2 result3; exit_status := 0 |}.

(** ** Reference definitions for the kernels

    What the loops are meant to compute, written without a loop counter:
    a left-to-right fold over the list of indices, with the program's own
    [add], [multiply] and [square] at every step. *)

(** The [k] consecutive integers [lo, lo + 1, ..., lo + k - 1]. *)
Fixpoint range (lo : Z) (k : nat) : list Z :=
  match k with
  | O => []
  | S k' => lo :: range (lo + 1) k'
  end.

(** Sum of [square i] for [i = 0, ..., n - 1], accumulated from the left. *)
Definition series_spec (n : Z) : Z :=
  fold_left (fun sum i => add sum (square i)) (range 0 (Z.to_nat n)) 0.

(** Product of [1, ..., n], accumulated from the left starting at [1]. *)
Definition product_spec (n : Z) : Z :=
  fold_left (fun prod i => multiply prod i) (range 1 (Z.to_nat n)) 1.

(** The exact (unbounded) sum [0^2 + 1^2 + ... + (k - 1)^2]. *)
Fixpoint sum_squares (k : nat) : Z :=
  match k with
  | O => 0
  | S k' => sum_squares k' + Z.of_nat k' * Z.of_nat k'
  end.

(** The value [cycle_1] comes back with: its argument when that is not
    positive, otherwise [0] from an even start and [-1] from an odd one. *)
Definition cycle_1_value (x : Z) : Z :=
  if x <=? 0 then x else - (x mod 2).

(** The exact (unbounded) factorial [1 * 2 * ... * k]. *)
Fixpoint factorial (k : nat) : Z :=
  match k with
  | O => 1
  | S k' => factorial k' * Z.of_nat (S k')
  end.

(** The number of nested calls [cycle_1 x] makes before it returns, itself
    included: one when [x] is not positive, otherwise one per decrement
    down to [0] or [-1] and one more for the call that returns. *)
Definition cycle_1_depth (x : Z) : Z :=
  if x <=? 0 then 1 else x + 1 + x mod 2.

(** ** Wrap-around arithmetic *)

(** Linear arithmetic over the bounds of [int]. *)
Ltac int_lia :=
  unfold Int.in_range, Int.min_signed, Int.max_signed, Int.modulus in *; lia.

Section Wrap.

Import Int.

Lemma wrap_in_range (z : Z) : in_range (wrap z).
Proof.
  unfold in_range, wrap, min_signed, max_signed, modulus.
  pose proof (Z.mod_pos_bound (z - -2147483648) 4294967296). lia.
Qed.

Lemma wrap_small (z : Z) : in_range z -> wrap z = z.
Proof.
  unfold in_range, wrap, min_signed, max_signed, modulus. intros H.
  rewrite Z.mod_small; lia.
Qed.

Lemma wrap_eqm (z : Z) : wrap z mod modulus = z mod modulus.
Proof.
  unfold wrap.
  replace ((z - min_signed) mod modulus + min_signed)
    with ((z - min_signed) mod modulus - (- min_signed)) by lia.
  rewrite Zminus_mod_idemp_l. f_equal. lia.
Qed.

Lemma wrap_congr (a b : Z) : a mod modulus = b mod modulus -> wrap a = wrap b.
Proof.
  intros H. unfold wrap.
  rewrite (Zminus_mod a), (Zminus_mod b), H. reflexivity.
Qed.

Lemma add_wrap (a b : Z) : add (wrap a) (wrap b) = wrap (a + b).
Proof.
  unfold add. apply wrap_congr.
  rewrite Zplus_mod, !wrap_eqm, <- Zplus_mod. reflexivity.
Qed.

Lemma mul_wrap (a b : Z) : mul (wrap a) (wrap b) = wrap (a * b).
Proof.
  unfold mul. apply wrap_congr.
  rewrite Zmult_mod, !wrap_eqm, <- Zmult_mod. reflexivity.
Qed.

Lemma add_one_small (i : Z) :
  min_signed <= i < max_signed -> add i 1 = i + 1.
Proof.
  intros H. apply wrap_small. unfold in_range, min_signed, max_signed in *. lia.
Qed.

Lemma sub_one_small (x : Z) :
  min_signed < x <= max_signed -> sub x 1 = x - 1.
Proof.
  intros H. apply wrap_small. unfold in_range, min_signed, max_signed in *. lia.
Qed.

End Wrap.

(** ** Fuel *)

Lemma ret_monotone {A : Type} (a : A) : monotone (ret a).
Proof. intros f f' v H _. exact H. Qed.

Lemma bind_monotone {A B : Type} (c : comp A) (k : A -> comp B) :
  monotone c -> (forall a, monotone (k a)) -> monotone (bind c k).
Proof.
  intros Hc Hk f f' v. unfold bind.
  destruct (c f) as [a|] eqn:E; [|discriminate].
  intros H Hle. rewrite (Hc f f' a E Hle). exact (Hk a f f' v H Hle).
Qed.

Lemma for_loop_monotone {A : Type} cond step (body : Z -> A -> A) i acc :
  monotone (for_loop cond step body i acc).
Proof.
  intros f. revert i acc.
  induction f as [|f IH]; intros i acc f' v H Hle; [discriminate|].
  destruct f' as [|f']; [lia|]. simpl in *.
  destruct (cond i); [|exact H].
  apply (IH _ _ _ _ H). lia.
Qed.

Lemma cycle_monotone_both (f : nat) :
  forall (x : Z) (f' : nat) (v : Z), (f <= f')%nat ->
    (cycle_1 x f = Some v -> cycle_1 x f' = Some v) /\
    (cycle_2 x f = Some v -> cycle_2 x f' = Some v).
Proof.
  induction f as [|f IH]; intros x f' v Hle; [split; discriminate|].
  destruct f' as [|f']; [lia|]. simpl.
  split.
  - destruct (x <=? 0); [trivial|]. apply IH. lia.
  - apply IH. lia.
Qed.

Lemma cycle_1_monotone (x : Z) : monotone (cycle_1 x).
Proof. intros f f' v H Hle. exact (proj1 (cycle_monotone_both f x f' v Hle) H). Qed.

Lemma cycle_2_monotone (x : Z) : monotone (cycle_2 x).
Proof. intros f f' v H Hle. exact (proj2 (cycle_monotone_both f x f' v Hle) H). Qed.

Lemma process_monotone (mode value : Z) : monotone (process mode value).
Proof.
  unfold process.
  destruct (mode =? 0); [apply for_loop_monotone|].
  destruct (mode =? 1); [apply for_loop_monotone|apply ret_monotone].
Qed.

Lemma main_monotone : monotone main.
Proof.
  unfold main.
  repeat (apply bind_monotone;
          [first [apply process_monotone | apply cycle_1_monotone]|intros ?]).
  apply ret_monotone.
Qed.

(** A monotone computation returns at most one value. *)
Lemma returns_unique {A : Type} (c : comp A) (v v' : A) :
  monotone c -> returns c v -> returns c v' -> v = v'.
Proof.
  intros Hm [f Hf] [f' Hf'].
  pose proof (Hm f (Nat.max f f') v Hf (Nat.le_max_l _ _)) as H1.
  pose proof (Hm f' (Nat.max f f') v' Hf' (Nat.le_max_r _ _)) as H2.
  congruence.
Qed.

Lemma returns_not_diverges {A : Type} (c : comp A) (v : A) :
  returns c v -> ~ diverges c.
Proof. intros [f Hf] Hd. rewrite Hd in Hf. discriminate. Qed.

(** ** Counting loops *)

Lemma range_snoc (k : nat) :
  forall lo : Z, range lo (S k) = (range lo k ++ [lo + Z.of_nat k])%list.
Proof.
  induction k as [|k IH]; intros lo.
  - simpl. f_equal. lia.
  - change (range lo (S (S k))) with (lo :: range (lo + 1) (S k)).
    rewrite IH. simpl. do 3 f_equal. lia.
Qed.

(** A loop [for (i = lo; cond(i); i++)] whose condition holds on [k]
    consecutive indices and fails on the next one runs its body on exactly
    those indices, in order, provided the counter never has to step past
    [Int.max_signed]. *)
Lemma for_loop_count {A : Type} (cond : Z -> bool) (body : Z -> A -> A) (k : nat) :
  forall (lo : Z) (acc : A),
    Int.min_signed <= lo ->
    lo + Z.of_nat k <= Int.max_signed ->
    (forall j, lo <= j < lo + Z.of_nat k -> cond j = true) ->
    cond (lo + Z.of_nat k) = false ->
    for_loop cond (fun i => Int.add i 1) body lo acc (S k)
    = Some (fold_left (fun a j => body j a) (range lo k) acc).
Proof.
  induction k as [|k IH]; intros lo acc Hlo Hhi Hin Hout.
  - simpl in *. rewrite Z.add_0_r in Hout. rewrite Hout. reflexivity.
  - change (for_loop cond (fun i => Int.add i 1) body lo acc (S (S k)))
      with (if cond lo
            then for_loop cond (fun i => Int.add i 1) body (Int.add lo 1) (body lo acc) (S k)
            else Some acc).
    rewrite Hin by lia.
    rewrite add_one_small by lia.
    rewrite IH.
    + reflexivity.
    + lia.
    + lia.
    + intros j Hj. apply Hin. lia.
    + replace (lo + 1 + Z.of_nat k) with (lo + Z.of_nat (S k)) by lia. exact Hout.
Qed.

(** A loop whose condition holds on every representable index never
    returns: the counter wraps and the loop goes on. *)
Lemma for_loop_never_exits {A : Type} (cond : Z -> bool) (body : Z -> A -> A) :
  (forall i, Int.in_range i -> cond i = true) ->
  forall (fuel : nat) (i : Z) (acc : A),
    Int.in_range i ->
    for_loop cond (fun i => Int.add i 1) body i acc fuel = None.
Proof.
  intros Hc. induction fuel as [|fuel IH]; intros i acc Hi; [reflexivity|].
  simpl. rewrite (Hc i Hi). apply IH. apply wrap_in_range.
Qed.

(** ** The kernels *)

Lemma compute_series_fuel (n : Z) :
  Int.in_range n ->
  compute_series n (S (Z.to_nat n)) = Some (series_spec n).
Proof.
  intros Hn. unfold compute_series, series_spec, Int.in_range,
    Int.min_signed, Int.max_signed in *.
  apply for_loop_count with (cond := fun i => i <? n)
                            (body := fun i sum => add sum (square i)).
  - unfold Int.min_signed. lia.
  - unfold Int.max_signed. lia.
  - intros j Hj. apply Z.ltb_lt. lia.
  - apply Z.ltb_ge. lia.
Qed.

Lemma compute_series_returns (n : Z) :
  Int.in_range n -> returns (compute_series n) (series_spec n).
Proof. intros Hn. eexists. apply compute_series_fuel, Hn. Qed.

Lemma series_spec_nonpos (n : Z) : n <= 0 -> series_spec n = 0.
Proof.
  intros Hn. unfold series_spec.
  replace (Z.to_nat n) with O by lia. reflexivity.
Qed.

Lemma series_spec_succ (n : Z) :
  0 <= n -> series_spec (n + 1) = add (series_spec n) (square n).
Proof.
  intros Hn. unfold series_spec.
  replace (Z.to_nat (n + 1)) with (S (Z.to_nat n)) by lia.
  rewrite range_snoc, fold_left_app.
  cbn [fold_left]. rewrite Z.add_0_l, Z2Nat.id by lia. reflexivity.
Qed.

Lemma compute_product_fuel (n : Z) :
  Int.in_range n -> n < Int.max_signed ->
  compute_product n (S (Z.to_nat n)) = Some (product_spec n).
Proof.
  intros Hn Hlt. unfold compute_product, product_spec, Int.in_range,
    Int.min_signed, Int.max_signed in *.
  apply for_loop_count with (cond := fun i => i <=? n)
                            (body := fun i prod => multiply prod i).
  - unfold Int.min_signed. lia.
  - unfold Int.max_signed. lia.
  - intros j Hj. apply Z.leb_le. lia.
  - apply Z.leb_gt. lia.
Qed.

Lemma product_spec_nonpos (n : Z) : n <= 0 -> product_spec n = 1.
Proof.
  intros Hn. unfold product_spec.
  replace (Z.to_nat n) with O by lia. reflexivity.
Qed.

Lemma product_spec_succ (n : Z) :
  0 <= n -> product_spec (n + 1) = multiply (product_spec n) (n + 1).
Proof.
  intros Hn. unfold product_spec.
  replace (Z.to_nat (n + 1)) with (S (Z.to_nat n)) by lia.
  rewrite range_snoc, fold_left_app.
  cbn [fold_left]. rewrite Z2Nat.id, (Z.add_comm 1 n) by lia. reflexivity.
Qed.

(** Below [Int.max_signed] the product kernel returns the running product
    of [1..n]. *)
Lemma compute_product_returns (n : Z) :
  Int.in_range n -> n < Int.max_signed ->
  returns (compute_product n) (product_spec n).
Proof. intros Hn Hlt. eexists. apply compute_product_fuel; assumption. Qed.

(** *** The sum of squares in closed form *)

Lemma sum_squares_closed (k : nat) :
  6 * sum_squares k = (Z.of_nat k - 1) * Z.of_nat k * (2 * Z.of_nat k - 1).
Proof.
  induction k as [|k IH]; [reflexivity|].
  change (sum_squares (S k)) with (sum_squares k + Z.of_nat k * Z.of_nat k).
  rewrite Nat2Z.inj_succ. unfold Z.succ. lia.
Qed.

Lemma series_spec_sum_squares (k : nat) :
  series_spec (Z.of_nat k) = Int.wrap (sum_squares k).
Proof.
  induction k as [|k IH]; [reflexivity|].
  rewrite Nat2Z.inj_succ. unfold Z.succ.
  rewrite series_spec_succ by lia. rewrite IH.
  unfold square, multiply, add, Int.mul.
  rewrite add_wrap. reflexivity.
Qed.

Lemma series_spec_closed (n : Z) :
  0 <= n -> series_spec n = Int.wrap ((n - 1) * n * (2 * n - 1) / 6).
Proof.
  intros Hn. rewrite <- (Z2Nat.id n Hn) at 1.
  rewrite series_spec_sum_squares. f_equal.
  pose proof (sum_squares_closed (Z.to_nat n)) as H.
  rewrite (Z2Nat.id n Hn) in H.
  rewrite <- H. rewrite Z.mul_comm, Z.div_mul; lia.
Qed.

(** ** The cyclic pair *)

Lemma cycle_1_unfold (x : Z) (fuel : nat) :
  cycle_1 x (S fuel) = if x <=? 0 then Some x else cycle_2 (Int.sub x 1) fuel.
Proof. reflexivity. Qed.

Lemma cycle_2_unfold (x : Z) (fuel : nat) :
  cycle_2 x (S fuel) = cycle_1 (Int.sub x 1) fuel.
Proof. reflexivity. Qed.

(** One round trip through both functions takes [2] off a positive [x]. *)
Lemma cycle_1_round_trip (x : Z) (fuel : nat) :
  Int.in_range x -> 0 < x ->
  cycle_1 x (S (S fuel)) = cycle_1 (x - 2) fuel.
Proof.
  intros Hx Hpos. unfold Int.in_range, Int.min_signed, Int.max_signed in Hx.
  rewrite cycle_1_unfold.
  destruct (x <=? 0) eqn:E; [apply Z.leb_le in E; lia|].
  rewrite cycle_2_unfold.
  rewrite (sub_one_small x) by (unfold Int.min_signed, Int.max_signed; lia).
  rewrite (sub_one_small (x - 1)) by (unfold Int.min_signed, Int.max_signed; lia).
  f_equal. lia.
Qed.

Lemma cycle_1_value_nonpos (x : Z) : x <= 0 -> cycle_1_value x = x.
Proof.
  intros H. unfold cycle_1_value.
  destruct (x <=? 0) eqn:E; [reflexivity|apply Z.leb_gt in E; lia].
Qed.

Lemma cycle_1_value_pos (x : Z) : 0 < x -> cycle_1_value x = - (x mod 2).
Proof.
  intros H. unfold cycle_1_value.
  destruct (x <=? 0) eqn:E; [apply Z.leb_le in E; lia|reflexivity].
Qed.

Lemma cycle_1_value_step (x : Z) :
  0 < x -> cycle_1_value (x - 2) = cycle_1_value x.
Proof.
  intros H. rewrite (cycle_1_value_pos x H).
  assert (Hm : (x - 2) mod 2 = x mod 2).
  { replace (x - 2) with (x + (-1) * 2) by lia. apply Z.mod_add. lia. }
  pose proof (Z.mod_pos_bound x 2 ltac:(lia)) as Hb.
  destruct (Z.leb_spec (x - 2) 0) as [Hle|Hgt].
  - rewrite cycle_1_value_nonpos by exact Hle.
    assert (Hx : x = 1 \/ x = 2) by lia.
    destruct Hx as [-> | ->]; reflexivity.
  - rewrite cycle_1_value_pos by lia. rewrite Hm. reflexivity.
Qed.

Lemma cycle_1_value_le_0 (x : Z) : cycle_1_value x <= 0.
Proof.
  destruct (Z.leb_spec x 0) as [Hle|Hgt].
  - rewrite cycle_1_value_nonpos; assumption.
  - rewrite cycle_1_value_pos by exact Hgt.
    pose proof (Z.mod_pos_bound x 2 ltac:(lia)). lia.
Qed.

(** [cycle_1 x] returns [cycle_1_value x] once the fuel covers the calls
    of [k] round trips, [k] being at least half of [x]. *)
Lemma cycle_1_fuel (k : nat) :
  forall x : Z, Int.in_range x -> x <= 2 * Z.of_nat k ->
    cycle_1 x (S (2 * k)) = Some (cycle_1_value x).
Proof.
  induction k as [|k IH]; intros x Hx Hk.
  - rewrite cycle_1_unfold.
    destruct (x <=? 0) eqn:E; [|apply Z.leb_gt in E; lia].
    rewrite cycle_1_value_nonpos by lia. reflexivity.
  - destruct (Z.leb_spec x 0) as [Hle|Hgt].
    + rewrite cycle_1_unfold.
      destruct (x <=? 0) eqn:E; [|apply Z.leb_gt in E; lia].
      rewrite cycle_1_value_nonpos by lia. reflexivity.
    + replace (S (2 * S k)) with (S (S (S (2 * k)))) by lia.
      rewrite cycle_1_round_trip by assumption.
      rewrite <- (cycle_1_value_step x Hgt).
      apply IH; [|lia].
      unfold Int.in_range, Int.min_signed, Int.max_signed in *. lia.
Qed.

Lemma cycle_1_returns (x : Z) :
  Int.in_range x -> returns (cycle_1 x) (cycle_1_value x).
Proof.
  intros Hx. exists (S (2 * Z.to_nat x)). apply cycle_1_fuel; [exact Hx|lia].
Qed.

Lemma cycle_2_returns (x : Z) :
  Int.in_range x -> returns (cycle_2 x) (cycle_1_value (Int.sub x 1)).
Proof.
  intros Hx.
  destruct (cycle_1_returns (Int.sub x 1) (wrap_in_range _)) as [fuel Hf].
  exists (S fuel). rewrite cycle_2_unfold. exact Hf.
Qed.

Lemma wrap_sub_eqm (z : Z) : (Int.wrap z - z) mod Int.modulus = 0.
Proof.
  rewrite Zminus_mod, wrap_eqm, Z.sub_diag. reflexivity.
Qed.

Lemma int_range_unfold (z : Z) :
  Int.in_range z <-> -2147483648 <= z <= 2147483647.
Proof. reflexivity. Qed.

(** ** Properties of the program *)

(** C8: for all ints [a], [b], [add a b] is [a + b] and [multiply a b] is
    [a * b] under 32-bit two's-complement wrap-around: the result is the
    representable value congruent to the exact one modulo [2^32], hence the
    exact one whenever that fits; and [square x] is [multiply x x]. *)
Theorem arithmetic_primitives (a b x : Z) :
  add a b = Int.wrap (a + b) /\
  multiply a b = Int.wrap (a * b) /\
  square x = multiply x x /\
  Int.in_range (add a b) /\
  Int.in_range (multiply a b) /\
  (add a b - (a + b)) mod Int.modulus = 0 /\
  (multiply a b - a * b) mod Int.modulus = 0 /\
  (Int.in_range (a + b) -> add a b = a + b) /\
  (Int.in_range (a * b) -> multiply a b = a * b).
Proof.
  unfold square, multiply, add, Int.mul, Int.add.
  do 3 (split; [reflexivity|]).
  do 2 (split; [apply wrap_in_range|]).
  do 2 (split; [apply wrap_sub_eqm|]).
  split; apply wrap_small.
Qed.

Lemma arithmetic_primitives_witness :
  add 2147483647 1 = -2147483648 /\
  multiply 65536 65536 = 0 /\
  square 46341 = -2147479015 /\
  add 20 22 = 42 /\
  multiply 6 7 = 42.
Proof.
  destruct (arithmetic_primitives 20 22 46341) as (_ & _ & _ & _ & _ & _ & _ & Hadd & _).
  destruct (arithmetic_primitives 6 7 46341) as (_ & _ & _ & _ & _ & _ & _ & _ & Hmul).
  do 3 (split; [reflexivity|]).
  split; [apply Hadd|apply Hmul]; apply int_range_unfold; simpl; lia.
Defined.

(** C5: for every int [x], [helper_A x] is [x + 10] and [helper_B x] is
    [helper_A x + square x], that is [(x + 10) + x * x], all in [int]
    arithmetic (exact whenever the exact value fits); [helper_B 5 = 40] and
    [helper_B 0 = 10]. *)
Theorem helpers_spec (x : Z) :
  helper_A x = Int.add x 10 /\
  helper_B x = Int.add (helper_A x) (square x) /\
  helper_B x = Int.wrap ((x + 10) + x * x) /\
  (Int.in_range (x + 10) -> helper_A x = x + 10) /\
  (Int.in_range ((x + 10) + x * x) -> helper_B x = (x + 10) + x * x) /\
  helper_B 5 = 40 /\
  helper_B 0 = 10.
Proof.
  assert (Hb : helper_B x = Int.wrap ((x + 10) + x * x)).
  { unfold helper_B, helper_A, square, multiply, add, Int.mul.
    unfold Int.add at 2. apply add_wrap. }
  repeat split; try reflexivity; try exact Hb.
  - intros H. unfold helper_A, add, Int.add. apply wrap_small, H.
  - intros H. rewrite Hb. apply wrap_small, H.
Qed.

Lemma helpers_spec_witness :
  helper_A 7 = 17 /\ helper_B 7 = 66 /\ helper_B 5 = 40 /\ helper_B 0 = 10.
Proof.
  destruct (helpers_spec 7) as (_ & _ & _ & HA & HB & H5 & H0).
  split; [apply HA; apply int_range_unfold; simpl; lia|].
  split; [apply HB; apply int_range_unfold; simpl; lia|].
  split; [exact H5|exact H0].
Defined.

(** C2: for all ints [mode] and [value], [process mode value] is
    [compute_series value] when [mode = 0], [compute_product value] when
    [mode = 1], and returns [helper_B value] for every other mode, negative
    ones included; an unrecognised mode never fails. *)
Theorem process_dispatch (mode value : Z) (fuel : nat) :
  (mode = 0 -> process mode value fuel = compute_series value fuel) /\
  (mode = 1 -> process mode value fuel = compute_product value fuel) /\
  (mode <> 0 -> mode <> 1 -> process mode value fuel = Some (helper_B value)).
Proof.
  unfold process. repeat split.
  - intros ->. reflexivity.
  - intros ->. reflexivity.
  - intros H0 H1.
    destruct (Z.eqb_spec mode 0); [contradiction|].
    destruct (Z.eqb_spec mode 1); [contradiction|].
    reflexivity.
Qed.

Lemma process_dispatch_witness :
  process 0 1000 1001%nat = compute_series 1000 1001%nat /\
  process 1 10 11%nat = compute_product 10 11%nat /\
  process 2 5 0%nat = Some (helper_B 5) /\
  process 99 5 0%nat = Some (helper_B 5) /\
  process (-3) 5 0%nat = Some (helper_B 5).
Proof.
  split; [apply (process_dispatch 0 1000 1001%nat); reflexivity|].
  split; [apply (process_dispatch 1 10 11%nat); reflexivity|].
  split; [apply (process_dispatch 2 5 0%nat); discriminate|].
  split; [apply (process_dispatch 99 5 0%nat); discriminate|].
  apply (process_dispatch (-3) 5 0%nat); discriminate.
Defined.

(** C3: for every int [n], [compute_series n] returns [0] when [n <= 0]
    (after a single test of the loop condition) and otherwise the sum of [square i] over [i = 0, ..., n - 1] accumulated from
    the left; [compute_series] returns [0] at [0], [0] at [1], [1] at [2]
    and [332833500] at [1000]. *)
Theorem compute_series_spec :
  (forall n : Z, Int.in_range n ->
     (n <= 0 -> returns (compute_series n) 0 /\ compute_series n 1%nat = Some 0) /\
     (0 < n ->
      returns (compute_series n)
        (fold_left (fun sum i => add sum (square i)) (range 0 (Z.to_nat n)) 0)) /\
     (forall v, returns (compute_series n) v -> v = series_spec n)) /\
  returns (compute_series 0) 0 /\
  returns (compute_series 1) 0 /\
  returns (compute_series 2) 1 /\
  returns (compute_series 1000) 332833500.
Proof.
  split.
  - intros n Hn.
    pose proof (compute_series_returns n Hn) as Hr.
    split; [|split].
    + intros Hle. rewrite (series_spec_nonpos n Hle) in Hr.
      split; [exact Hr|].
      pose proof (compute_series_fuel n Hn) as Hf.
      rewrite (series_spec_nonpos n Hle) in Hf.
      replace (Z.to_nat n) with O in Hf by lia. exact Hf.
    + intros _. exact Hr.
    + intros v Hv.
      exact (returns_unique _ _ _ (for_loop_monotone _ _ _ _ _) Hv Hr).
  - split; [exists 1%nat; reflexivity|].
    split; [exists 2%nat; reflexivity|].
    split; [exists 3%nat; reflexivity|].
    exists 1001%nat. vm_compute. reflexivity.
Qed.

Lemma compute_series_spec_witness :
  Int.in_range 4 /\ 0 < 4 /\ returns (compute_series 4) 14 /\
  Int.in_range (-7) /\ -7 <= 0 /\ returns (compute_series (-7)) 0.
Proof.
  pose proof (proj1 compute_series_spec) as H.
  assert (H4 : Int.in_range 4) by (int_lia).
  assert (H7 : Int.in_range (-7)) by (int_lia).
  split; [exact H4|]. split; [lia|].
  split; [exact (proj1 (proj2 (H 4 H4)) ltac:(lia))|].
  split; [exact H7|]. split; [lia|].
  exact (proj1 (proj1 (H (-7) H7) ltac:(lia))).
Defined.

(** C4, at the one input where it fails: with [n = 2147483647] the loop
    condition [i <= n] holds for every [int] counter, the increment wraps
    from [2147483647] to [-2147483648], and [compute_product] never
    returns. *)
Theorem compute_product_int_max_diverges :
  Int.in_range 2147483647 /\ diverges (compute_product 2147483647).
Proof.
  split; [int_lia|].
  intros fuel. unfold compute_product.
  apply for_loop_never_exits.
  - intros i Hi. apply Z.leb_le. int_lia.
  - int_lia.
Qed.

(** On every other int the product kernel behaves as described: [1] for
    [n <= 0], otherwise the product of [1..n] accumulated from the left
    starting at [1]. *)
Lemma compute_product_below_max :
  (forall n : Z, Int.in_range n -> n < Int.max_signed ->
     (n <= 0 -> returns (compute_product n) 1) /\
     (0 < n ->
      returns (compute_product n)
        (fold_left (fun prod i => multiply prod i) (range 1 (Z.to_nat n)) 1)) /\
     (forall v, returns (compute_product n) v -> v = product_spec n)) /\
  returns (compute_product 0) 1 /\
  returns (compute_product 1) 1 /\
  returns (compute_product 10) 3628800.
Proof.
  split.
  - intros n Hn Hlt.
    pose proof (compute_product_returns n Hn Hlt) as Hr.
    split; [|split].
    + intros Hle. rewrite (product_spec_nonpos n Hle) in Hr. exact Hr.
    + intros _. exact Hr.
    + intros v Hv.
      exact (returns_unique _ _ _ (for_loop_monotone _ _ _ _ _) Hv Hr).
  - split; [exists 1%nat; reflexivity|].
    split; [exists 2%nat; reflexivity|].
    exists 11%nat. reflexivity.
Qed.

(** The sum of the squares below [2^31 - 1], reduced to an [int], from the
    closed form. *)
Lemma series_spec_int_max : series_spec 2147483647 = -1073741825.
Proof. rewrite series_spec_closed by lia. vm_compute. reflexivity. Qed.

(** C9, amended: for every int [n] with [0 <= n < 2147483647] (so that
    [n + 1] is an int too), [compute_series n] returns some [v] and
    [compute_series (n + 1)] returns [add v (square n)]. *)
Theorem compute_series_recurrence (n : Z) :
  0 <= n -> n < Int.max_signed ->
  (exists v, returns (compute_series n) v) /\
  (forall v, returns (compute_series n) v ->
             returns (compute_series (n + 1)) (add v (square n))).
Proof.
  intros H0 Hlt.
  assert (Hn : Int.in_range n) by (int_lia).
  assert (Hn1 : Int.in_range (n + 1)) by (int_lia).
  pose proof (compute_series_returns n Hn) as Hr.
  split; [exists (series_spec n); exact Hr|].
  intros v Hv.
  rewrite (returns_unique _ _ _ (for_loop_monotone _ _ _ _ _) Hv Hr).
  rewrite <- series_spec_succ by exact H0.
  apply compute_series_returns, Hn1.
Qed.

Lemma compute_series_recurrence_witness :
  0 <= 2 /\ 2 < Int.max_signed /\
  returns (compute_series 2) 1 /\
  returns (compute_series (2 + 1)) (add 1 (square 2)).
Proof.
  assert (H0 : 0 <= 2) by lia.
  assert (H1 : 2 < Int.max_signed) by int_lia.
  assert (Hr : returns (compute_series 2) 1) by (exists 3%nat; reflexivity).
  split; [exact H0|]. split; [exact H1|]. split; [exact Hr|].
  exact (proj2 (compute_series_recurrence 2 H0 H1) 1 Hr).
Defined.

(** C9 as stated fails at [n = 2147483647]: [compute_series n] returns
    [-1073741825], so the right-hand side is [-1073741824], while [n + 1]
    wraps to [-2147483648], on which [compute_series] returns [0] and
    nothing else; on the exact [n + 1 = 2147483648], which is no int, the
    loop never returns. *)
Lemma compute_series_recurrence_int_max :
  Int.in_range 2147483647 /\
  0 <= 2147483647 /\
  returns (compute_series 2147483647) (-1073741825) /\
  add (-1073741825) (square 2147483647) = -1073741824 /\
  Int.add 2147483647 1 = -2147483648 /\
  returns (compute_series (Int.add 2147483647 1)) 0 /\
  ~ returns (compute_series (Int.add 2147483647 1))
            (add (-1073741825) (square 2147483647)) /\
  diverges (compute_series (2147483647 + 1)).
Proof.
  assert (Hmax : Int.in_range 2147483647) by (int_lia).
  assert (Hr0 : returns (compute_series (Int.add 2147483647 1)) 0)
    by (exists 1%nat; reflexivity).
  split; [exact Hmax|]. split; [lia|].
  split.
  { rewrite <- series_spec_int_max. apply compute_series_returns, Hmax. }
  split; [vm_compute; reflexivity|].
  split; [vm_compute; reflexivity|].
  split; [exact Hr0|].
  split.
  { intros Hr.
    pose proof (returns_unique _ _ _ (for_loop_monotone _ _ _ _ _) Hr Hr0) as E.
    vm_compute in E. discriminate E. }
  intros fuel. unfold compute_series.
  apply for_loop_never_exits.
  - intros i Hi. apply Z.ltb_lt. int_lia.
  - int_lia.
Qed.

(** C6: for every int [x], positive, zero or negative, both [cycle_1 x]
    and [cycle_2 x] terminate; [cycle_1 x] needs no more than [x + 2]
    nested calls for a positive [x] and a single call otherwise. *)
Theorem cycle_terminates (x : Z) :
  Int.in_range x ->
  (exists v, returns (cycle_1 x) v) /\
  (exists v, returns (cycle_2 x) v) /\
  ~ diverges (cycle_1 x) /\
  ~ diverges (cycle_2 x) /\
  (exists v, cycle_1 x (Z.to_nat x + 2) = Some v) /\
  (x <= 0 -> exists v, cycle_1 x 1 = Some v).
Proof.
  intros Hx.
  pose proof (cycle_1_returns x Hx) as H1.
  pose proof (cycle_2_returns x Hx) as H2.
  split; [eexists; exact H1|].
  split; [eexists; exact H2|].
  split; [exact (returns_not_diverges _ _ H1)|].
  split; [exact (returns_not_diverges _ _ H2)|].
  split.
  - exists (cycle_1_value x).
    apply (cycle_1_monotone x (S (2 * Z.to_nat ((x + 1) / 2)))).
    + apply cycle_1_fuel; [exact Hx|]. Z.div_mod_to_equations. lia.
    + Z.div_mod_to_equations. lia.
  - intros Hle. exists x. rewrite cycle_1_unfold.
    destruct (x <=? 0) eqn:E; [reflexivity|apply Z.leb_gt in E; lia].
Qed.

Lemma cycle_terminates_witness :
  Int.in_range 5 /\
  (exists v, returns (cycle_1 5) v) /\
  (exists v, returns (cycle_2 5) v) /\
  Int.in_range (-2147483648) /\
  (exists v, returns (cycle_2 (-2147483648)) v).
Proof.
  assert (H5 : Int.in_range 5) by int_lia.
  assert (Hm : Int.in_range (-2147483648)) by int_lia.
  split; [exact H5|].
  split; [exact (proj1 (cycle_terminates 5 H5))|].
  split; [exact (proj1 (proj2 (cycle_terminates 5 H5)))|].
  split; [exact Hm|].
  exact (proj1 (proj2 (cycle_terminates (-2147483648) Hm))).
Defined.

(** C7: for every int [x], [cycle_1 x] returns [x] at once (within its
    first call) when [x <= 0]; whatever [cycle_1 x] returns is not
    positive and is what the decrements lead to: [x] less [2] for each of
    [m] round trips, every earlier argument of [cycle_1] having been
    positive; and each call hands the value of its inner call back
    unchanged. *)
Theorem cycle_1_result (x : Z) :
  Int.in_range x ->
  (x <= 0 -> cycle_1 x 1 = Some x) /\
  (exists v, returns (cycle_1 x) v) /\
  (forall v, returns (cycle_1 x) v ->
     v <= 0 /\
     exists m : nat,
       v = x - 2 * Z.of_nat m /\
       forall j : nat, (j < m)%nat -> 0 < x - 2 * Z.of_nat j) /\
  (0 < x -> forall fuel, cycle_1 x (S (S fuel)) = cycle_1 (x - 2) fuel) /\
  (0 < x -> forall fuel, cycle_1 x (S fuel) = cycle_2 (x - 1) fuel) /\
  (forall fuel, cycle_2 x (S fuel) = cycle_1 (Int.sub x 1) fuel).
Proof.
  intros Hx.
  pose proof (cycle_1_returns x Hx) as Hr.
  split.
  { intros Hle. rewrite cycle_1_unfold.
    destruct (x <=? 0) eqn:E; [reflexivity|apply Z.leb_gt in E; lia]. }
  split; [eexists; exact Hr|].
  split.
  { intros v Hv.
    rewrite (returns_unique _ _ _ (cycle_1_monotone x) Hv Hr).
    split; [apply cycle_1_value_le_0|].
    destruct (Z.leb_spec x 0) as [Hle|Hgt].
    - exists O. rewrite cycle_1_value_nonpos by exact Hle.
      split; [lia|]. intros j Hj. lia.
    - exists (Z.to_nat ((x + 1) / 2)). rewrite cycle_1_value_pos by exact Hgt.
      split; [|intros j Hj]; Z.div_mod_to_equations; lia. }
  split; [intros Hpos fuel; apply cycle_1_round_trip; assumption|].
  split; [|intros fuel; apply cycle_2_unfold].
  intros Hpos fuel. rewrite cycle_1_unfold.
  destruct (x <=? 0) eqn:E; [apply Z.leb_le in E; lia|].
  rewrite sub_one_small by int_lia. reflexivity.
Qed.

Lemma cycle_1_result_witness :
  Int.in_range (-4) /\ cycle_1 (-4) 1 = Some (-4) /\
  Int.in_range 5 /\ cycle_1 5 8 = cycle_1 3 6.
Proof.
  assert (H4 : Int.in_range (-4)) by int_lia.
  assert (H5 : Int.in_range 5) by int_lia.
  split; [exact H4|].
  split; [exact (proj1 (cycle_1_result (-4) H4) ltac:(lia))|].
  split; [exact H5|].
  exact (proj1 (proj2 (proj2 (proj2 (cycle_1_result 5 H5)))) ltac:(lia) 6%nat).
Defined.

(** C10: for every int [x > 0], [cycle_1 x] returns [0] when [x] is even
    and [-1] when [x] is odd ([cycle_2] has no base case, so [cycle_2 0]
    steps down to [-1]); and for every int [x], [cycle_1] applied to the
    result of [cycle_1 x] returns that same result. *)
Theorem cycle_1_parity (x : Z) :
  Int.in_range x ->
  (0 < x -> Z.even x = true -> returns (cycle_1 x) 0) /\
  (0 < x -> Z.odd x = true -> returns (cycle_1 x) (-1)) /\
  returns (cycle_2 0) (-1) /\
  (exists v, returns (cycle_1 x) v /\
             returns (r <- cycle_1 x ;; cycle_1 r) v) /\
  (forall v, returns (cycle_1 x) v -> returns (cycle_1 v) v).
Proof.
  intros Hx.
  pose proof (cycle_1_returns x Hx) as Hr.
  assert (Hv : cycle_1 (cycle_1_value x) 1 = Some (cycle_1_value x)).
  { rewrite cycle_1_unfold. pose proof (cycle_1_value_le_0 x) as Hle.
    destruct (cycle_1_value x <=? 0) eqn:E; [reflexivity|apply Z.leb_gt in E; lia]. }
  split.
  { intros Hpos Hev. rewrite cycle_1_value_pos in Hr by exact Hpos.
    rewrite Zmod_even, Hev in Hr. exact Hr. }
  split.
  { intros Hpos Hodd. rewrite cycle_1_value_pos in Hr by exact Hpos.
    rewrite Zmod_odd, Hodd in Hr. exact Hr. }
  split; [exists 2%nat; reflexivity|].
  split.
  { exists (cycle_1_value x). split; [exact Hr|].
    destruct Hr as [fuel Hf]. exists (S fuel). unfold bind.
    rewrite (cycle_1_monotone x fuel (S fuel) _ Hf) by lia.
    apply (cycle_1_monotone _ 1%nat); [exact Hv|lia]. }
  intros v Hrv.
  rewrite (returns_unique _ _ _ (cycle_1_monotone x) Hrv Hr).
  exists 1%nat. exact Hv.
Qed.

Lemma cycle_1_parity_witness :
  Int.in_range 6 /\ returns (cycle_1 6) 0 /\
  Int.in_range 5 /\ returns (cycle_1 5) (-1) /\
  returns (cycle_1 (-1)) (-1).
Proof.
  assert (H6 : Int.in_range 6) by int_lia.
  assert (H5 : Int.in_range 5) by int_lia.
  pose proof (proj1 (proj2 (cycle_1_parity 5 H5)) ltac:(lia) eq_refl) as Hodd.
  split; [exact H6|].
  split; [exact (proj1 (cycle_1_parity 6 H6) ltac:(lia) eq_refl)|].
  split; [exact H5|].
  split; [exact Hodd|].
  exact (proj2 (proj2 (proj2 (proj2 (cycle_1_parity 5 H5)))) (-1) Hodd).
Defined.

(** C1: a run of [main] computes [process 0 1000 = 332833500],
    [process 1 10 = 3628800] and [process 2 5 = 40], writes exactly the
    line [332833500 3628800 40] and a newline to standard output, and
    returns exit status [0]. *)
Theorem main_output :
  returns (process 0 1000) 332833500 /\
  returns (process 1 10) 3628800 /\
  returns (process 2 5) 40 /\
  returns main {| stdout := "332833500 3628800 40" ++ newline;
                  exit_status := 0 |} /\
  (forall o, returns main o ->
     stdout o = ("332833500 3628800 40" ++ newline)%string /\ exit_status o = 0).
Proof.
  assert (Hm : returns main {| stdout := "332833500 3628800 40" ++ newline;
                               exit_status := 0 |}).
  { exists 1001%nat. vm_compute. reflexivity. }
  split; [exists 1001%nat; vm_compute; reflexivity|].
  split; [exists 11%nat; vm_compute; reflexivity|].
  split; [exists 0%nat; vm_compute; reflexivity|].
  split; [exact Hm|].
  intros o Ho. rewrite (returns_unique _ _ _ main_monotone Ho Hm).
  split; reflexivity.
Qed.

Lemma main_output_witness :
  returns main {| stdout := "332833500 3628800 40" ++ newline; exit_status := 0 |} /\
  stdout {| stdout := "332833500 3628800 40" ++ newline; exit_status := 0 |}
  = ("332833500 3628800 40" ++ newline)%string.
Proof.
  pose proof main_output as (_ & _ & _ & Hm & Hu).
  split; [exact Hm|exact (proj1 (Hu _ Hm))].
Defined.

(** ** Further properties *)

(** *** Arithmetic modulo [2^32] *)

Lemma wrap_add_l (a b : Z) : Int.wrap (Int.wrap a + b) = Int.wrap (a + b).
Proof.
  apply wrap_congr. rewrite Zplus_mod, wrap_eqm, <- Zplus_mod. reflexivity.
Qed.

Lemma wrap_add_r (a b : Z) : Int.wrap (a + Int.wrap b) = Int.wrap (a + b).
Proof. rewrite Z.add_comm, wrap_add_l, Z.add_comm. reflexivity. Qed.

Lemma wrap_mul_l (a b : Z) : Int.wrap (Int.wrap a * b) = Int.wrap (a * b).
Proof.
  apply wrap_congr. rewrite Zmult_mod, wrap_eqm, <- Zmult_mod. reflexivity.
Qed.

Lemma wrap_mul_r (a b : Z) : Int.wrap (a * Int.wrap b) = Int.wrap (a * b).
Proof. rewrite Z.mul_comm, wrap_mul_l, Z.mul_comm. reflexivity. Qed.

(** A wrapped value differs from the exact one by a multiple of [2^32]. *)
Lemma wrap_decompose (z : Z) : exists q : Z, Int.wrap z = z - q * 4294967296.
Proof.
  exists ((z - Int.min_signed) / Int.modulus).
  unfold Int.wrap.
  pose proof (Z.div_mod (z - Int.min_signed) Int.modulus) as H.
  unfold Int.modulus, Int.min_signed in *. lia.
Qed.

(** Wrapping is the identity exactly on the representable values. *)
Lemma wrap_exact_iff (z : Z) : Int.wrap z = z <-> Int.in_range z.
Proof.
  split; [|apply wrap_small].
  intros H. rewrite <- H. apply wrap_in_range.
Qed.

Lemma helper_B_wrap (x : Z) : helper_B x = Int.wrap (x * x + x + 10).
Proof.
  unfold helper_B, helper_A, square, multiply, add, Int.mul, Int.add.
  rewrite wrap_add_l, wrap_add_r. f_equal. lia.
Qed.

(** X1: [add] and [multiply] keep the laws of a commutative ring in spite of
    overflow: both are commutative and associative, [multiply] distributes
    over [add], [0] and [1] are neutral on ints, and [square] does not see
    the sign of its argument. *)
Theorem int_arith_ring_laws (a b c : Z) :
  add a b = add b a /\
  add (add a b) c = add a (add b c) /\
  multiply a b = multiply b a /\
  multiply (multiply a b) c = multiply a (multiply b c) /\
  multiply a (add b c) = add (multiply a b) (multiply a c) /\
  (Int.in_range a -> add a 0 = a /\ multiply a 1 = a) /\
  square (Int.sub 0 a) = square a.
Proof.
  unfold square, multiply, add, Int.mul, Int.add, Int.sub.
  split; [f_equal; lia|].
  split; [rewrite wrap_add_l, wrap_add_r; f_equal; lia|].
  split; [f_equal; lia|].
  split; [rewrite wrap_mul_l, wrap_mul_r; f_equal; lia|].
  split; [rewrite wrap_mul_r, wrap_add_l, wrap_add_r; f_equal; lia|].
  split.
  - intros Ha. rewrite Z.add_0_r, Z.mul_1_r. split; apply wrap_small, Ha.
  - rewrite wrap_mul_l, wrap_mul_r. f_equal. lia.
Qed.

Lemma int_arith_ring_laws_witness :
  Int.in_range 2147483647 /\
  add 2147483647 0 = 2147483647 /\
  multiply 2147483647 1 = 2147483647 /\
  add (add 2147483647 1) (-1) = add 2147483647 (add 1 (-1)).
Proof.
  assert (H : Int.in_range 2147483647) by int_lia.
  destruct (int_arith_ring_laws 2147483647 1 (-1)) as (_ & Hassoc & _ & _ & _ & Hn & _).
  split; [exact H|].
  split; [exact (proj1 (Hn H))|].
  split; [exact (proj2 (Hn H))|exact Hassoc].
Defined.

(** X2: for every int [x], [unused_function x] is an even int, and it is
    the exact product [x * 42] if and only if
    [-51130563 <= x <= 51130563]; outside that range the multiplication
    overflows. *)
Theorem unused_function_exact_iff (x : Z) :
  Int.in_range x ->
  Int.in_range (unused_function x) /\
  Z.even (unused_function x) = true /\
  (unused_function x = x * 42 <-> -51130563 <= x <= 51130563).
Proof.
  intros Hx. unfold unused_function, Int.mul.
  split; [apply wrap_in_range|].
  split.
  - destruct (wrap_decompose (x * 42)) as [q Hq]. rewrite Hq.
    apply Z.even_spec. exists (x * 21 - q * 2147483648). lia.
  - rewrite wrap_exact_iff. unfold Int.in_range, Int.min_signed, Int.max_signed. lia.
Qed.

Lemma unused_function_exact_iff_witness :
  Int.in_range 51130563 /\
  unused_function 51130563 = 51130563 * 42 /\
  Int.in_range 51130564 /\
  unused_function 51130564 <> 51130564 * 42.
Proof.
  assert (H1 : Int.in_range 51130563) by int_lia.
  assert (H2 : Int.in_range 51130564) by int_lia.
  split; [exact H1|].
  split; [apply (proj2 (proj2 (proj2 (unused_function_exact_iff 51130563 H1)))); lia|].
  split; [exact H2|].
  intros E. apply (proj1 (proj2 (proj2 (unused_function_exact_iff 51130564 H2)))) in E. lia.
Defined.

(** X3: for every int [x], [helper_B x] is an even int, and it is the exact
    value [x * x + x + 10] if and only if [-46341 <= x <= 46340]; in that
    range it is at least [10]. *)
Theorem helper_B_exact_iff (x : Z) :
  Int.in_range x ->
  Int.in_range (helper_B x) /\
  Z.even (helper_B x) = true /\
  (helper_B x = x * x + x + 10 <-> -46341 <= x <= 46340) /\
  (-46341 <= x <= 46340 -> 10 <= helper_B x).
Proof.
  intros Hx. rewrite helper_B_wrap.
  assert (Hiff : Int.in_range (x * x + x + 10) <-> -46341 <= x <= 46340).
  { unfold Int.in_range, Int.min_signed, Int.max_signed. split; intros H; nia. }
  split; [apply wrap_in_range|].
  split.
  { destruct (wrap_decompose (x * x + x + 10)) as [q Hq]. rewrite Hq.
    destruct (Z.Even_or_Odd x) as [[m Hm]|[m Hm]]; apply Z.even_spec.
    - exists (2 * m * m + m + 5 - q * 2147483648). nia.
    - exists (2 * m * m + 3 * m + 6 - q * 2147483648). nia. }
  split; [rewrite wrap_exact_iff; exact Hiff|].
  intros H. rewrite wrap_small by (apply Hiff, H). nia.
Qed.

Lemma helper_B_exact_iff_witness :
  Int.in_range 46340 /\ helper_B 46340 = 46340 * 46340 + 46340 + 10 /\
  10 <= helper_B 46340 /\
  Int.in_range 46341 /\ helper_B 46341 <> 46341 * 46341 + 46341 + 10.
Proof.
  assert (H1 : Int.in_range 46340) by int_lia.
  assert (H2 : Int.in_range 46341) by int_lia.
  destruct (helper_B_exact_iff 46340 H1) as (_ & _ & Hiff & Hge).
  split; [exact H1|].
  split; [apply (proj2 Hiff); lia|].
  split; [apply Hge; lia|].
  split; [exact H2|].
  intros E.
  apply (proj1 (proj1 (proj2 (proj2 (helper_B_exact_iff 46341 H2))))) in E. lia.
Defined.

(** *** The kernels against exact arithmetic *)

Lemma series_spec_in_range (n : Z) : Int.in_range (series_spec n).
Proof.
  destruct (Z.leb_spec n 0) as [Hle|Hgt].
  - rewrite series_spec_nonpos by exact Hle. int_lia.
  - replace n with (n - 1 + 1) by lia. rewrite series_spec_succ by lia.
    apply wrap_in_range.
Qed.

Lemma product_spec_in_range (n : Z) : Int.in_range (product_spec n).
Proof.
  destruct (Z.leb_spec n 0) as [Hle|Hgt].
  - rewrite product_spec_nonpos by exact Hle. int_lia.
  - replace n with (n - 1 + 1) by lia. rewrite product_spec_succ by lia.
    apply wrap_in_range.
Qed.

Lemma compute_series_unique (n v : Z) :
  Int.in_range n -> returns (compute_series n) v -> v = series_spec n.
Proof.
  intros Hn Hv.
  exact (returns_unique _ _ _ (for_loop_monotone _ _ _ _ _) Hv
           (compute_series_returns n Hn)).
Qed.

Lemma compute_product_unique (n v : Z) :
  Int.in_range n -> n < Int.max_signed ->
  returns (compute_product n) v -> v = product_spec n.
Proof.
  intros Hn Hlt Hv.
  exact (returns_unique _ _ _ (for_loop_monotone _ _ _ _ _) Hv
           (compute_product_returns n Hn Hlt)).
Qed.

Lemma sum_squares_mono (k m : nat) :
  (k <= m)%nat -> sum_squares k <= sum_squares m.
Proof.
  induction 1 as [|m _ IH]; [lia|].
  change (sum_squares (S m)) with (sum_squares m + Z.of_nat m * Z.of_nat m). nia.
Qed.

Lemma sum_squares_of_Z (n : Z) :
  0 <= n -> (n - 1) * n * (2 * n - 1) / 6 = sum_squares (Z.to_nat n).
Proof.
  intros Hn. pose proof (sum_squares_closed (Z.to_nat n)) as H.
  rewrite (Z2Nat.id n Hn) in H.
  rewrite <- H, Z.mul_comm, Z.div_mul; lia.
Qed.

Lemma factorial_pos (k : nat) : 0 < factorial k.
Proof.
  induction k as [|k IH]; [reflexivity|].
  change (factorial (S k)) with (factorial k * Z.of_nat (S k)). nia.
Qed.

Lemma factorial_mono (k m : nat) :
  (k <= m)%nat -> factorial k <= factorial m.
Proof.
  induction 1 as [|m _ IH]; [lia|].
  change (factorial (S m)) with (factorial m * Z.of_nat (S m)).
  pose proof (factorial_pos m). nia.
Qed.

Lemma product_spec_factorial (k : nat) :
  product_spec (Z.of_nat k) = Int.wrap (factorial k).
Proof.
  induction k as [|k IH]; [reflexivity|].
  rewrite Nat2Z.inj_succ. unfold Z.succ.
  rewrite product_spec_succ by lia. rewrite IH.
  unfold multiply, Int.mul. rewrite wrap_mul_l.
  change (factorial (S k)) with (factorial k * Z.of_nat (S k)).
  rewrite Nat2Z.inj_succ. reflexivity.
Qed.

Lemma product_spec_zero_from_34 (k : nat) :
  product_spec (34 + Z.of_nat k) = 0.
Proof.
  induction k as [|k IH]; [vm_compute; reflexivity|].
  replace (34 + Z.of_nat (S k)) with (34 + Z.of_nat k + 1) by lia.
  rewrite product_spec_succ by lia. rewrite IH. reflexivity.
Qed.

(** X4: for every int [n] with [0 <= n], [compute_series n] returns the
    closed form [(n - 1) * n * (2 * n - 1) / 6] reduced modulo [2^32]; the
    result is the exact sum of squares if and only if [n <= 1861]. *)
Theorem compute_series_closed_form (n : Z) :
  Int.in_range n -> 0 <= n ->
  returns (compute_series n) (Int.wrap ((n - 1) * n * (2 * n - 1) / 6)) /\
  (returns (compute_series n) ((n - 1) * n * (2 * n - 1) / 6) <-> n <= 1861).
Proof.
  intros Hn H0.
  assert (Hr : returns (compute_series n) (Int.wrap ((n - 1) * n * (2 * n - 1) / 6))).
  { rewrite <- series_spec_closed by exact H0. apply compute_series_returns, Hn. }
  split; [exact Hr|].
  rewrite sum_squares_of_Z in * by exact H0.
  assert (H1861 : sum_squares 1861 = 2146682110) by (vm_compute; reflexivity).
  assert (H1862 : sum_squares 1862 = 2150145431) by (vm_compute; reflexivity).
  split.
  - intros Hv.
    pose proof (returns_unique _ _ _ (for_loop_monotone _ _ _ _ _) Hv Hr) as E.
    symmetry in E. apply wrap_exact_iff in E.
    destruct (Z.leb_spec n 1861) as [Hle|Hgt]; [exact Hle|].
    pose proof (sum_squares_mono 1862 (Z.to_nat n) ltac:(lia)).
    int_lia.
  - intros Hle. rewrite wrap_small in Hr; [exact Hr|].
    pose proof (sum_squares_mono 0 (Z.to_nat n) ltac:(lia)) as Hlo.
    pose proof (sum_squares_mono (Z.to_nat n) 1861 ltac:(lia)) as Hhi.
    change (sum_squares 0) with 0 in Hlo. int_lia.
Qed.

Lemma compute_series_closed_form_witness :
  Int.in_range 1000 /\ 0 <= 1000 /\
  returns (compute_series 1000) ((1000 - 1) * 1000 * (2 * 1000 - 1) / 6) /\
  Int.in_range 1862 /\
  ~ returns (compute_series 1862) ((1862 - 1) * 1862 * (2 * 1862 - 1) / 6).
Proof.
  assert (H1 : Int.in_range 1000) by int_lia.
  assert (H2 : Int.in_range 1862) by int_lia.
  split; [exact H1|]. split; [lia|].
  split; [apply (proj2 (proj2 (compute_series_closed_form 1000 H1 ltac:(lia)))); lia|].
  split; [exact H2|].
  intros Hv.
  apply (proj1 (proj2 (compute_series_closed_form 1862 H2 ltac:(lia)))) in Hv. lia.
Defined.

(** X5: for every int [n] with [0 <= n < 2147483647], [compute_product n]
    returns [n!] reduced modulo [2^32]; the result is the exact factorial
    if and only if [n <= 12]. *)
Theorem compute_product_factorial (n : Z) :
  0 <= n -> n < Int.max_signed ->
  returns (compute_product n) (Int.wrap (factorial (Z.to_nat n))) /\
  (returns (compute_product n) (factorial (Z.to_nat n)) <-> n <= 12).
Proof.
  intros H0 Hlt.
  assert (Hn : Int.in_range n) by int_lia.
  assert (Hr : returns (compute_product n) (Int.wrap (factorial (Z.to_nat n)))).
  { rewrite <- product_spec_factorial, Z2Nat.id by exact H0.
    apply compute_product_returns; assumption. }
  split; [exact Hr|].
  assert (H12 : factorial 12 = 479001600) by (vm_compute; reflexivity).
  assert (H13 : factorial 13 = 6227020800) by (vm_compute; reflexivity).
  split.
  - intros Hv.
    pose proof (returns_unique _ _ _ (for_loop_monotone _ _ _ _ _) Hv Hr) as E.
    symmetry in E. apply wrap_exact_iff in E.
    destruct (Z.leb_spec n 12) as [Hle|Hgt]; [exact Hle|].
    pose proof (factorial_mono 13 (Z.to_nat n) ltac:(lia)).
    int_lia.
  - intros Hle. rewrite wrap_small in Hr; [exact Hr|].
    pose proof (factorial_pos (Z.to_nat n)) as Hlo.
    pose proof (factorial_mono (Z.to_nat n) 12 ltac:(lia)) as Hhi.
    int_lia.
Qed.

Lemma compute_product_factorial_witness :
  0 <= 12 /\ 12 < Int.max_signed /\
  returns (compute_product 12) (factorial 12) /\
  ~ returns (compute_product 13) (factorial 13).
Proof.
  assert (Hm : 12 < Int.max_signed) by int_lia.
  assert (Hm' : 13 < Int.max_signed) by int_lia.
  split; [lia|]. split; [exact Hm|].
  split.
  - exact (proj2 (proj2 (compute_product_factorial 12 ltac:(lia) Hm)) ltac:(lia)).
  - intros Hv.
    apply (proj1 (proj2 (compute_product_factorial 13 ltac:(lia) Hm'))) in Hv. lia.
Defined.

(** X6: for every int [n] below [2147483647], [compute_product n] returns
    [0] if and only if [34 <= n]: from [34!] on the running product is a
    multiple of [2^32] and stays [0]. *)
Theorem compute_product_zero_iff (n : Z) :
  Int.in_range n -> n < Int.max_signed ->
  (returns (compute_product n) 0 <-> 34 <= n).
Proof.
  intros Hn Hlt. split.
  - intros Hv. apply compute_product_unique in Hv; [|assumption..].
    destruct (Z.leb_spec 34 n) as [Hle|Hgt]; [exact Hle|exfalso].
    destruct (Z.leb_spec n 0) as [Hneg|Hpos].
    + rewrite product_spec_nonpos in Hv by exact Hneg. discriminate Hv.
    + assert (Hk : exists k : nat, (k < 34)%nat /\ n = Z.of_nat k)
        by (exists (Z.to_nat n); lia).
      destruct Hk as (k & Hk & ->).
      do 34 (destruct k as [|k]; [vm_compute in Hv; discriminate Hv|]).
      lia.
  - intros Hle.
    pose proof (compute_product_returns n Hn Hlt) as Hr.
    replace (product_spec n) with 0 in Hr; [exact Hr|].
    symmetry. replace n with (34 + Z.of_nat (Z.to_nat (n - 34))) by lia.
    apply product_spec_zero_from_34.
Qed.

Lemma compute_product_zero_iff_witness :
  Int.in_range 34 /\ 34 < Int.max_signed /\ returns (compute_product 34) 0 /\
  Int.in_range 33 /\ 33 < Int.max_signed /\ ~ returns (compute_product 33) 0.
Proof.
  assert (H34 : Int.in_range 34) by int_lia.
  assert (H33 : Int.in_range 33) by int_lia.
  assert (L34 : 34 < Int.max_signed) by int_lia.
  assert (L33 : 33 < Int.max_signed) by int_lia.
  split; [exact H34|]. split; [exact L34|].
  split; [exact (proj2 (compute_product_zero_iff 34 H34 L34) ltac:(lia))|].
  split; [exact H33|]. split; [exact L33|].
  intros Hv. apply (proj1 (compute_product_zero_iff 33 H33 L33)) in Hv. lia.
Defined.

(** *** The dispatcher as a whole *)

Lemma compute_product_stuck : diverges (compute_product Int.max_signed).
Proof.
  intros fuel. unfold compute_product.
  apply for_loop_never_exits; [|int_lia].
  intros i Hi. apply Z.leb_le. int_lia.
Qed.

(** X7: for all ints [mode] and [value], [process mode value] returns a
    value, always an int, unless [mode = 1] and [value = 2147483647]; on
    that one pair it never returns. *)
Theorem process_returns_iff (mode value : Z) :
  Int.in_range value ->
  ((exists v, returns (process mode value) v) <->
   ~ (mode = 1 /\ value = Int.max_signed)) /\
  (mode = 1 -> value = Int.max_signed -> diverges (process mode value)) /\
  (forall v, returns (process mode value) v -> Int.in_range v).
Proof.
  intros Hv. unfold process.
  destruct (Z.eqb_spec mode 0) as [E0|N0].
  { split; [|split].
    - split; [intros _ [H _]; lia|].
      intros _. eexists. apply compute_series_returns, Hv.
    - intros H. lia.
    - intros v Hr. rewrite (compute_series_unique value v Hv Hr).
      apply series_spec_in_range. }
  destruct (Z.eqb_spec mode 1) as [E1|N1].
  { destruct (Z.eq_dec value Int.max_signed) as [Emax|Nmax].
    - subst value. split; [|split].
      + split; [|intros H; exfalso; apply H; split; [exact E1|reflexivity]].
        intros [v Hr] _.
        exact (returns_not_diverges _ _ Hr compute_product_stuck).
      + intros _ _. exact compute_product_stuck.
      + intros v Hr.
        destruct (returns_not_diverges _ _ Hr compute_product_stuck).
    - assert (Hlt : value < Int.max_signed) by int_lia.
      split; [|split].
      + split; [intros _ [_ H]; contradiction|].
        intros _. eexists. apply compute_product_returns; assumption.
      + intros _ H. contradiction.
      + intros v Hr. rewrite (compute_product_unique value v Hv Hlt Hr).
        apply product_spec_in_range. }
  split; [|split].
  - split; [intros _ [H _]; contradiction|].
    intros _. exists (helper_B value), O. reflexivity.
  - intros H. contradiction.
  - intros v [fuel Hr]. unfold ret in Hr. injection Hr as <-.
    rewrite helper_B_wrap. apply wrap_in_range.
Qed.

Lemma process_returns_iff_witness :
  Int.in_range 2147483647 /\
  (exists v, returns (process 0 2147483647) v) /\
  (exists v, returns (process 7 2147483647) v) /\
  diverges (process 1 2147483647).
Proof.
  assert (H : Int.in_range 2147483647) by int_lia.
  split; [exact H|].
  split.
  { apply (proj2 (proj1 (process_returns_iff 0 2147483647 H))).
    intros [E _]. discriminate E. }
  split.
  { apply (proj2 (proj1 (process_returns_iff 7 2147483647 H))).
    intros [E _]. discriminate E. }
  exact (proj1 (proj2 (process_returns_iff 1 2147483647 H)) eq_refl eq_refl).
Defined.

(** *** The cyclic pair in detail *)

Lemma cycle_1_depth_step (x : Z) :
  0 < x -> cycle_1_depth x = cycle_1_depth (x - 2) + 2.
Proof.
  intros H. unfold cycle_1_depth.
  destruct (Z.leb_spec x 0) as [Hle|_]; [lia|].
  assert (Hm : (x - 2) mod 2 = x mod 2).
  { replace (x - 2) with (x + (-1) * 2) by lia. apply Z.mod_add. lia. }
  destruct (Z.leb_spec (x - 2) 0) as [Hle|Hgt].
  - assert (Hx : x = 1 \/ x = 2) by lia.
    destruct Hx as [-> | ->]; reflexivity.
  - rewrite Hm. lia.
Qed.

Lemma cycle_1_exact (k : nat) :
  forall (x : Z) (fuel : nat), Int.in_range x -> x <= 2 * Z.of_nat k ->
    cycle_1 x fuel
    = if cycle_1_depth x <=? Z.of_nat fuel then Some (cycle_1_value x) else None.
Proof.
  assert (Hbase : forall (x : Z) (fuel : nat), x <= 0 ->
            cycle_1 x fuel
            = if cycle_1_depth x <=? Z.of_nat fuel
              then Some (cycle_1_value x) else None).
  { intros x fuel Hle. rewrite cycle_1_value_nonpos by exact Hle.
    unfold cycle_1_depth.
    destruct (Z.leb_spec x 0) as [_|Hgt]; [|lia].
    destruct fuel as [|fuel]; [reflexivity|].
    rewrite cycle_1_unfold.
    destruct (Z.leb_spec x 0) as [_|Hgt]; [|lia].
    destruct (Z.leb_spec 1 (Z.of_nat (S fuel))) as [_|Hgt]; [reflexivity|lia]. }
  induction k as [|k IH]; intros x fuel Hx Hk; [apply Hbase; lia|].
  destruct (Z.leb_spec x 0) as [Hle|Hgt]; [apply Hbase; exact Hle|].
  rewrite (cycle_1_depth_step x Hgt), <- (cycle_1_value_step x Hgt).
  assert (Hd : 1 <= cycle_1_depth (x - 2)).
  { unfold cycle_1_depth. destruct (Z.leb_spec (x - 2) 0); [lia|].
    pose proof (Z.mod_pos_bound (x - 2) 2 ltac:(lia)). lia. }
  destruct fuel as [|[|fuel]].
  - destruct (Z.leb_spec (cycle_1_depth (x - 2) + 2) (Z.of_nat 0)); [lia|reflexivity].
  - rewrite cycle_1_unfold.
    destruct (Z.leb_spec x 0) as [Hle|_]; [lia|].
    destruct (Z.leb_spec (cycle_1_depth (x - 2) + 2) (Z.of_nat 1)); [lia|reflexivity].
  - rewrite cycle_1_round_trip by assumption.
    rewrite IH by int_lia.
    destruct (Z.leb_spec (cycle_1_depth (x - 2)) (Z.of_nat fuel));
      destruct (Z.leb_spec (cycle_1_depth (x - 2) + 2) (Z.of_nat (S (S fuel))));
      try reflexivity; lia.
Qed.

(** X8: the recursion depth of [cycle_1] is linear in its argument: for an
    int [x > 0] the call returns (with [0] or [-1] according to the parity
    of [x]) exactly when [x + 1 + x mod 2] nested calls are available, and
    for [x <= 0] exactly when one is. *)
Theorem cycle_1_call_depth (x : Z) (fuel : nat) :
  Int.in_range x ->
  (x <= 0 ->
   cycle_1 x fuel = if 1 <=? Z.of_nat fuel then Some x else None) /\
  (0 < x ->
   cycle_1 x fuel
   = if x + 1 + x mod 2 <=? Z.of_nat fuel then Some (- (x mod 2)) else None).
Proof.
  intros Hx.
  pose proof (cycle_1_exact (Z.to_nat x) x fuel Hx ltac:(lia)) as H.
  split; intros Hs.
  - rewrite cycle_1_value_nonpos in H by exact Hs.
    unfold cycle_1_depth in H.
    destruct (Z.leb_spec x 0) as [_|Hgt]; [exact H|lia].
  - rewrite cycle_1_value_pos in H by exact Hs.
    unfold cycle_1_depth in H.
    destruct (Z.leb_spec x 0) as [Hle|_]; [lia|exact H].
Qed.

Lemma cycle_1_call_depth_witness :
  Int.in_range 5 /\ cycle_1 5 6 = None /\ cycle_1 5 7 = Some (-1) /\
  Int.in_range (-3) /\ cycle_1 (-3) 0 = None /\ cycle_1 (-3) 1 = Some (-3).
Proof.
  assert (H5 : Int.in_range 5) by int_lia.
  assert (H3 : Int.in_range (-3)) by int_lia.
  split; [exact H5|].
  split; [exact (proj2 (cycle_1_call_depth 5 6 H5) ltac:(lia))|].
  split; [exact (proj2 (cycle_1_call_depth 5 7 H5) ltac:(lia))|].
  split; [exact H3|].
  split; [exact (proj1 (cycle_1_call_depth (-3) 0 H3) ltac:(lia))|].
  exact (proj1 (cycle_1_call_depth (-3) 1 H3) ltac:(lia)).
Defined.

(** X9: for every int [x], [cycle_2 x] returns [x - 1] when
    [-2147483648 < x <= 1], and for [x > 1] it returns [-1] when [x] is even
    and [0] when [x] is odd; at [x = -2147483648] the decrement wraps to
    [2147483647] and the result is [-1].  The result is never positive. *)
Theorem cycle_2_value (x : Z) :
  Int.in_range x ->
  (Int.min_signed < x -> x <= 1 -> returns (cycle_2 x) (x - 1)) /\
  (1 < x -> returns (cycle_2 x) (if Z.even x then -1 else 0)) /\
  (x = Int.min_signed -> returns (cycle_2 x) (-1)) /\
  (forall v, returns (cycle_2 x) v -> v <= 0).
Proof.
  intros Hx. pose proof (cycle_2_returns x Hx) as Hr.
  split; [|split; [|split]].
  - intros Hlo Hhi. rewrite sub_one_small in Hr by int_lia.
    rewrite cycle_1_value_nonpos in Hr by lia. exact Hr.
  - intros Hgt. rewrite sub_one_small in Hr by int_lia.
    rewrite cycle_1_value_pos in Hr by lia.
    rewrite Zmod_even, Z.even_sub in Hr.
    destruct (Z.even x); exact Hr.
  - intros ->. exact Hr.
  - intros v Hv.
    rewrite (returns_unique _ _ _ (cycle_2_monotone x) Hv Hr).
    apply cycle_1_value_le_0.
Qed.

Lemma cycle_2_value_witness :
  Int.in_range 0 /\ returns (cycle_2 0) (-1) /\
  Int.in_range 6 /\ returns (cycle_2 6) (-1) /\
  Int.in_range 7 /\ returns (cycle_2 7) 0 /\
  Int.in_range (-2147483648) /\ returns (cycle_2 (-2147483648)) (-1).
Proof.
  assert (H0 : Int.in_range 0) by int_lia.
  assert (H6 : Int.in_range 6) by int_lia.
  assert (H7 : Int.in_range 7) by int_lia.
  assert (Hm : Int.in_range (-2147483648)) by int_lia.
  split; [exact H0|].
  split; [exact (proj1 (cycle_2_value 0 H0) ltac:(int_lia) ltac:(lia))|].
  split; [exact H6|].
  split; [exact (proj1 (proj2 (cycle_2_value 6 H6)) ltac:(lia))|].
  split; [exact H7|].
  split; [exact (proj1 (proj2 (cycle_2_value 7 H7)) ltac:(lia))|].
  split; [exact Hm|].
  exact (proj1 (proj2 (proj2 (cycle_2_value (-2147483648) Hm))) eq_refl).
Defined.

(** *** The cost of the loops *)

(** A counting loop given no more fuel than it has indices to visit does not
    finish. *)
Lemma for_loop_short {A : Type} (cond : Z -> bool) (body : Z -> A -> A) (fuel : nat) :
  forall (k : nat) (lo : Z) (acc : A),
    Int.min_signed <= lo ->
    lo + Z.of_nat k <= Int.max_signed ->
    (forall j, lo <= j < lo + Z.of_nat k -> cond j = true) ->
    (fuel <= k)%nat ->
    for_loop cond (fun i => Int.add i 1) body lo acc fuel = None.
Proof.
  induction fuel as [|fuel IH]; intros k lo acc Hlo Hhi Hin Hle; [reflexivity|].
  destruct k as [|k]; [lia|].
  change (for_loop cond (fun i => Int.add i 1) body lo acc (S fuel))
    with (if cond lo
          then for_loop cond (fun i => Int.add i 1) body (Int.add lo 1) (body lo acc) fuel
          else Some acc).
  rewrite Hin by lia.
  rewrite add_one_small by lia.
  apply (IH k); [lia|lia| |lia].
  intros j Hj. apply Hin. lia.
Qed.

(** X10: both kernels cost one test of the loop condition per index and one
    more to leave the loop: for an int [n], [compute_series n] returns
    exactly when [max n 0 + 1] tests are available, and so does
    [compute_product n] when [n < 2147483647]. *)
Theorem kernel_iterations (n : Z) (fuel : nat) :
  Int.in_range n ->
  compute_series n fuel
  = (if Z.max n 0 + 1 <=? Z.of_nat fuel then Some (series_spec n) else None) /\
  (n < Int.max_signed ->
   compute_product n fuel
   = (if Z.max n 0 + 1 <=? Z.of_nat fuel then Some (product_spec n) else None)).
Proof.
  intros Hn.
  destruct (Z.leb_spec (Z.max n 0 + 1) (Z.of_nat fuel)) as [Hle|Hgt].
  - split.
    + apply (for_loop_monotone _ _ _ _ _ (S (Z.to_nat n))); [|lia].
      apply compute_series_fuel, Hn.
    + intros Hlt.
      apply (for_loop_monotone _ _ _ _ _ (S (Z.to_nat n))); [|lia].
      apply compute_product_fuel; assumption.
  - split.
    + unfold compute_series.
      apply for_loop_short with (cond := fun i => i <? n) (k := Z.to_nat n).
      * int_lia.
      * int_lia.
      * intros j Hj. apply Z.ltb_lt. lia.
      * lia.
    + intros Hlt. unfold compute_product.
      apply for_loop_short with (cond := fun i => i <=? n) (k := Z.to_nat n).
      * int_lia.
      * int_lia.
      * intros j Hj. apply Z.leb_le. lia.
      * lia.
Qed.

Lemma kernel_iterations_witness :
  Int.in_range 3 /\ 3 < Int.max_signed /\
  compute_series 3 3%nat = None /\ compute_series 3 4%nat = Some 5 /\
  compute_product 3 3%nat = None /\ compute_product 3 4%nat = Some 6.
Proof.
  assert (H3 : Int.in_range 3) by int_lia.
  assert (L3 : 3 < Int.max_signed) by int_lia.
  split; [exact H3|]. split; [exact L3|].
  split; [exact (proj1 (kernel_iterations 3 3 H3))|].
  split; [exact (proj1 (kernel_iterations 3 4 H3))|].
  split; [exact (proj2 (kernel_iterations 3 3 H3) L3)|].
  exact (proj2 (kernel_iterations 3 4 H3) L3).
Defined.

(** *** [helper_A] *)

(** X11: on ints [helper_A] is one-to-one, and it is the exact sum [x + 10]
    if and only if [x <= 2147483637]; above that the sum wraps round to
    [x + 10 - 2^32]. *)
Theorem helper_A_injective (x y : Z) :
  Int.in_range x -> Int.in_range y ->
  (helper_A x = helper_A y -> x = y) /\
  (helper_A x = x + 10 <-> x <= 2147483637) /\
  (2147483637 < x -> helper_A x = x + 10 - 4294967296).
Proof.
  intros Hx Hy.
  assert (Hcase : forall z, Int.in_range z ->
            (z <= 2147483637 /\ helper_A z = z + 10) \/
            (2147483637 < z /\ helper_A z = z + 10 - 4294967296)).
  { intros z Hz. unfold helper_A, add, Int.add.
    destruct (Z.leb_spec z 2147483637) as [Hle|Hgt].
    - left. split; [exact Hle|]. apply wrap_small. int_lia.
    - right. split; [exact Hgt|].
      rewrite <- (wrap_small (z + 10 - 4294967296)) by int_lia.
      apply wrap_congr.
      replace (z + 10 - 4294967296) with (z + 10 + (-1) * Int.modulus)
        by (unfold Int.modulus; lia).
      rewrite Z.mod_add by (unfold Int.modulus; lia). reflexivity. }
  destruct (Hcase x Hx) as [[Hx1 Ex]|[Hx1 Ex]];
    destruct (Hcase y Hy) as [[Hy1 Ey]|[Hy1 Ey]];
    (split; [intros E; rewrite Ex, Ey in E; int_lia|]);
    (split; [split; intros H; [int_lia|try exact Ex; lia]|intros H; try exact Ex; lia]).
Qed.

Lemma helper_A_injective_witness :
  Int.in_range 2147483637 /\ Int.in_range 2147483638 /\
  helper_A 2147483637 = 2147483637 + 10 /\
  helper_A 2147483638 = 2147483638 + 10 - 4294967296.
Proof.
  assert (H1 : Int.in_range 2147483637) by int_lia.
  assert (H2 : Int.in_range 2147483638) by int_lia.
  split; [exact H1|]. split; [exact H2|].
  split.
  - apply (proj2 (proj1 (proj2 (helper_A_injective 2147483637 2147483638 H1 H2)))). lia.
  - apply (proj2 (proj2 (helper_A_injective 2147483638 2147483637 H2 H1))). lia.
Defined.
